(** * Fabric, package [internal/plugins/ai/openai]

    A shallow embedding of [copilot_transport.go] (the endpoint
    classifier [isGitHubCopilotURL] and the header-injecting
    [CopilotTransport]) and of the citation loop exercised by
    [TestCitationFormatting] in [openai_test.go], together with the
    properties the specification states about them.

    Go strings are byte sequences: they are modelled by [string], whose
    characters are the 256 values of [ascii]. *)

From Stdlib Require Import ZArith NArith Ascii.
From Stdlib Require QArith_base.
From stdpp Require Import base decidable option list strings gmap fin_maps.

Local Open Scope Z_scope.

(** ** Byte strings: the part of Go's [strings] package that is used *)

Module Strings.

Definition byteVal (c : ascii) : Z := Z.of_N (N_of_ascii c).

(** ['A' <= c && c <= 'Z'] *)
Definition isUpperByte (c : ascii) : bool :=
  (65 <=? byteVal c) && (byteVal c <=? 90).

(** [c += 'a' - 'A'] on an upper-case byte, any other byte unchanged. *)
Definition lowerByte (c : ascii) : ascii :=
  if isUpperByte c then ascii_of_N (Z.to_N (byteVal c + 32)) else c.

Fixpoint mapBytes (f : ascii -> ascii) (s : string) : string :=
  match s with
  | EmptyString => EmptyString
  | String c r => String (f c) (mapBytes f r)
  end.

(** The scan that opens [strings.ToLower]: [isASCII] is cleared by
    the first byte [>= utf8.RuneSelf] (0x80). *)
Fixpoint isASCII (s : string) : bool :=
  match s with
  | EmptyString => true
  | String c r => (byteVal c <? 128) && isASCII r
  end.

Fixpoint hasUpper (s : string) : bool :=
  match s with
  | EmptyString => false
  | String c r => isUpperByte c || hasUpper r
  end.

(** [strings.HasPrefix]. *)
Fixpoint HasPrefix (s prefix : string) {struct prefix} : bool :=
  match prefix, s with
  | EmptyString, _ => true
  | String _ _, EmptyString => false
  | String p prefix', String c s' =>
      if decide (c = p) then HasPrefix s' prefix' else false
  end.

(** [strings.Index]: the byte offset of the first occurrence of
    [substr] in [s], or [-1]. *)
Fixpoint Index (s substr : string) : Z :=
  if HasPrefix s substr then 0
  else match s with
       | EmptyString => -1
       | String _ s' =>
           let i := Index s' substr in
           if i <? 0 then -1 else i + 1
       end.

(** [func Contains(s, substr string) bool { return Index(s, substr) >= 0 }] *)
Definition Contains (s substr : string) : bool := Index s substr >=? 0.

(** [strings.Join]. *)
Fixpoint Join (elems : list string) (sep : string) : string :=
  match elems with
  | [] => ""
  | [e] => e
  | e :: rest => e +:+ sep +:+ Join rest sep
  end.

Section ToLower.
(** The slow path of [strings.ToLower], [Map(unicode.ToLower, s)],
    is taken only when [s] has a byte outside ASCII; it depends on
    the Unicode case tables of the Go runtime and is a parameter. *)
Variable Map_unicode_ToLower : string -> string.

Definition ToLower (s : string) : string :=
  if isASCII s then
    if hasUpper s then mapBytes lowerByte s else s
  else Map_unicode_ToLower s.
End ToLower.

End Strings.

(** ** [copilot_transport.go]: the endpoint classifier *)

Section Classifier.
Variable Map_unicode_ToLower : string -> string.

Definition isGitHubCopilotURL (url : string) : bool :=
  Strings.Contains (Strings.ToLower Map_unicode_ToLower url)
                   "api.githubcopilot.com".
End Classifier.

(** The literal that [isGitHubCopilotURL] looks for. *)
Definition marker : string := "api.githubcopilot.com".

(** ** The part of [net/http] that [CopilotTransport] relies on

    A [*http.Request] and an [http.Header] are references: requests and
    header maps live in a store and are named by locations, so that the
    difference between the caller's request and the clone that is
    forwarded is observable. *)

Module Http.

Abbreviation loc := positive (only parsing).

(** An [http.Header], a [map[string][]string], is a
    [gmap string (list string)]. *)

(** The fields of [http.Request] that matter here.  [Header] is a map
    value, [None] being the nil map; [Body] is shared by a clone. *)
Record Request := mkRequest {
  Method : string;
  URL : string;
  Host : string;
  Header : option loc;
  Body : option loc
}.

Record Response := mkResponse {
  StatusCode : Z;
  RespBody : string
}.

Record Store := mkStore {
  requests : gmap loc Request;
  headers : gmap loc (gmap string (list string))
}.

(** A call either returns a value and a store, or panics. *)
Inductive outcome (A : Type) : Type :=
  | Ok (a : A) (σ : Store)
  | Panic (msg : string).
Arguments Ok {A} a σ.
Arguments Panic {A} msg.

Definition M (A : Type) : Type := Store -> outcome A.

Definition ret {A} (a : A) : M A := fun σ => Ok a σ.

Definition bind {A B} (m : M A) (k : A -> M B) : M B :=
  fun σ => match m σ with
           | Ok a σ' => k a σ'
           | Panic msg => Panic msg
           end.

Definition panic {A} (msg : string) : M A := fun _ => Panic msg.

Declare Scope go_scope.
Delimit Scope go_scope with go.
Notation "x <- m ;; k" := (bind m (fun x => k))
  (at level 100, m at next level, right associativity) : go_scope.
Notation "m ;;; k" := (bind m (fun _ => k))
  (at level 100, right associativity) : go_scope.
Local Open Scope go_scope.

Definition nilDeref : string :=
  "invalid memory address or nil pointer dereference".
Definition nilMapWrite : string := "assignment to entry in nil map".

(** [*p] for a request pointer. *)
Definition loadRequest (p : loc) : M Request :=
  fun σ => match requests σ !! p with
           | Some r => Ok r σ
           | None => Panic nilDeref
           end.

(** [new(Request)] initialised with [r]. *)
Definition allocRequest (r : Request) : M loc :=
  fun σ => let p := fresh (dom (requests σ)) in
           Ok p (mkStore (<[p := r]> (requests σ)) (headers σ)).

Definition allocHeader (h : gmap string (list string)) : M loc :=
  fun σ => let l := fresh (dom (headers σ)) in
           Ok l (mkStore (requests σ) (<[l := h]> (headers σ))).

(** *** [net/textproto]: canonical header keys *)

(** [validHeaderFieldByte]: the token characters of RFC 7230. *)
Definition validHeaderFieldByte (c : ascii) : bool :=
  let n := Strings.byteVal c in
  ((48 <=? n) && (n <=? 57)) || ((65 <=? n) && (n <=? 90))
  || ((97 <=? n) && (n <=? 122))
  || bool_decide (c ∈ ["!"; "#"; "$"; "%"; "&"; "'"; "*"; "+"; "-"; ".";
                       "^"; "_"; "`"; "|"; "~"]%char).

Fixpoint allValid (s : string) : bool :=
  match s with
  | EmptyString => true
  | String c r => validHeaderFieldByte c && allValid r
  end.

(** The rewriting loop of [canonicalMIMEHeaderKey]: the first letter
    and every letter after a hyphen in upper case, the others in lower
    case. *)
Fixpoint canonCase (upper : bool) (s : string) : string :=
  match s with
  | EmptyString => EmptyString
  | String c r =>
      let n := Strings.byteVal c in
      let c' :=
        if upper && (97 <=? n) && (n <=? 122)
        then ascii_of_N (Z.to_N (n - 32))
        else if negb upper && (65 <=? n) && (n <=? 90)
             then ascii_of_N (Z.to_N (n + 32))
             else c in
      String c' (canonCase (bool_decide (c' = "-"%char)) r)
  end.

(** [textproto.CanonicalMIMEHeaderKey]: a key with a byte that is not
    a token character is returned unchanged. *)
Definition CanonicalMIMEHeaderKey (s : string) : string :=
  if allValid s then canonCase true s else s.

(** *** [http.Header] methods *)

(** [h.Get(key)]: the first value stored under the canonical key, or
    the empty string; reading a nil map is allowed. *)
Definition Header_Get (h : gmap string (list string)) (key : string) : string :=
  match h !! CanonicalMIMEHeaderKey key with
  | Some (v :: _) => v
  | _ => ""
  end.

(** [h.Values(key)]. *)
Definition Header_Values (h : gmap string (list string)) (key : string)
  : list string :=
  default [] (h !! CanonicalMIMEHeaderKey key).

(** [h.Set(key, value)]:
    [h[CanonicalMIMEHeaderKey(key)] = []string{value}]. *)
Definition Header_Set (h : option loc) (key value : string) : M unit :=
  fun σ => match h with
           | None => Panic nilMapWrite
           | Some l =>
               match headers σ !! l with
               | None => Panic nilDeref
               | Some m =>
                   Ok tt (mkStore (requests σ)
                            (<[l := <[CanonicalMIMEHeaderKey key := [value]]> m]>
                               (headers σ)))
               end
           end.

(** [h.Clone()]: nil for nil, else a new map with the same entries. *)
Definition Header_Clone (h : option loc) : M (option loc) :=
  match h with
  | None => ret None
  | Some l =>
      m <- (fun σ => match headers σ !! l with
                     | Some m => Ok m σ
                     | None => Panic nilDeref
                     end) ;;
      l' <- allocHeader m ;;
      ret (Some l')
  end.

(** [r.Clone(ctx)]: [r2 := new(Request); *r2 = *r;
    r2.Header = r.Header.Clone()]. *)
Definition Request_Clone (p : loc) : M loc :=
  r <- loadRequest p ;;
  h2 <- Header_Clone (Header r) ;;
  allocRequest (mkRequest (Method r) (URL r) (Host r) h2 (Body r)).

(** The result pair: a [*http.Response] and an [error]. *)
Definition Reply : Type := option Response * option string.

(** The interface [http.RoundTripper]. *)
Record RoundTripper := mkRoundTripper {
  roundTrip : loc -> M Reply
}.

End Http.

(** ** [copilot_transport.go]: the transport *)

Module Copilot.
Import Http.
Local Open Scope go_scope.

Record CopilotTransport := mkCopilotTransport {
  base : option RoundTripper
}.

Section Transport.
(** [http.DefaultTransport]. *)
Variable DefaultTransport : RoundTripper.

Definition NewCopilotTransport (base : option RoundTripper)
  : CopilotTransport :=
  let base := match base with
              | None => Some DefaultTransport
              | Some b => Some b
              end in
  mkCopilotTransport base.
End Transport.

Definition RoundTrip (t : CopilotTransport) (req : loc) : M Reply :=
  newReq <- Request_Clone req ;;
  r <- loadRequest newReq ;;
  Header_Set (Header r) "X-GitHub-Api-Version" "2023-05-01" ;;;
  match base t with
  | Some b => roundTrip b newReq
  | None => panic nilDeref
  end.

(** [*CopilotTransport] implements [http.RoundTripper]. *)
Definition asRoundTripper (t : CopilotTransport) : RoundTripper :=
  mkRoundTripper (RoundTrip t).

End Copilot.

(** ** Citations: the loop of [TestCitationFormatting]

    [openai_test.go] replays the citation extraction of the client on a
    slice of [(URL, Title)] structs: a [map[string]bool] of the keys
    already seen and the slice of rendered lines. *)

Module Citations.

Record Citation := mkCitation {
  URL : string;
  Title : string
}.

#[global] Instance Citation_eq_dec : EqDecision Citation.
Proof. solve_decision. Defined.

Definition newline : string := String (ascii_of_nat 10) "".

(** [citationKey := citation.URL + "|" + citation.Title] *)
Definition citationKey (citation : Citation) : string :=
  URL citation +:+ "|" +:+ Title citation.

(** [citationText := "- [" + citation.Title + "](" + citation.URL + ")"] *)
Definition citationText (citation : Citation) : string :=
  "- [" +:+ Title citation +:+ "](" +:+ URL citation +:+ ")".

(** [citationMap[k]] on a [map[string]bool]: false for a missing key. *)
Definition seen (citationMap : gmap string bool) (k : string) : bool :=
  default false (citationMap !! k).

(** One iteration of the [range] loop over the citations. *)
Definition visit (st : gmap string bool * list string) (citation : Citation)
  : gmap string bool * list string :=
  let '(citationMap, citations) := st in
  let citationKey := citationKey citation in
  if negb (seen citationMap citationKey) then
    (<[citationKey := true]> citationMap, citations ++ [citationText citation])
  else (citationMap, citations).

(** The loop from the state in which the test starts it. *)
Definition collate (entries : list Citation) : list string :=
  snd (foldl visit (∅, []) entries).

Definition sourcesHeader : string :=
  newline +:+ newline +:+ "## Sources" +:+ newline +:+ newline.

(** [result := strings.Join(textParts, "")], extended by the Sources
    section [if len(citations) > 0]. *)
Definition formatResult (textParts : list string) (entries : list Citation)
  : string :=
  let citations := collate entries in
  let result := Strings.Join textParts "" in
  if (0 <? Z.of_nat (length citations)) then
    result +:+ sourcesHeader +:+ Strings.Join citations newline
  else result.

(** The specification's reading of the same loop: an entry is kept when
    no earlier entry has its key. *)
Fixpoint firstSeen (entries : list Citation) : list Citation :=
  match entries with
  | [] => []
  | e :: rest =>
      e :: filter (fun x => citationKey x ≠ citationKey e) (firstSeen rest)
  end.

End Citations.

(** ** The request builder

    [buildResponseParams] is called by the tests but defined in a file
    outside this development. *)

Module Builder.

Record ChatCompletionMessage := mkMessage {
  Role : string;
  Content : string
}.

Section Options.
(** The floating-point type of [Temperature] and [TopP], which the
    builder only copies. *)
Variable float : Type.

Record ChatOptions := mkChatOptions {
  Model : string;
  Temperature : float;
  TopP : float;
  MaxTokens : option Z;
  Raw : bool;
  Search : bool;
  SearchLocation : option string
}.

Record UserLocation := mkUserLocation {
  LocationType : string;
  Timezone : option string
}.

Record WebSearchTool := mkWebSearchTool {
  ToolType : string;
  Location : option UserLocation
}.

Inductive Tool : Type :=
| OfWebSearchPreview (w : WebSearchTool).

Record ProviderRequest := mkProviderRequest {
  ReqModel : string;
  ReqTemperature : float;
  ReqTopP : float;
  MaxOutputTokens : option Z;
  Tools : option (list Tool)
}.

(** Modelled from the spec: the body of [buildResponseParams], which is
    not among the source files; section 4.1 of the specification gives
    its rules, followed here one by one. *)
Definition buildResponseParams (msgs : list ChatCompletionMessage)
    (opts : ChatOptions) : ProviderRequest :=
  let maxOutputTokens :=
    match MaxTokens opts with
    | Some n => if n =? 0 then None else Some n
    | None => None
    end in
  let userLocation :=
    match SearchLocation opts with
    | Some tz => if decide (tz = "") then None
                 else Some (mkUserLocation "approximate" (Some tz))
    | None => None
    end in
  let tools :=
    if Search opts then
      Some [OfWebSearchPreview (mkWebSearchTool "web_search_preview" userLocation)]
    else None in
  mkProviderRequest (Model opts) (Temperature opts) (TopP opts)
                    maxOutputTokens tools.

End Options.

Arguments Model {float}.
Arguments Temperature {float}.
Arguments TopP {float}.
Arguments MaxTokens {float}.
Arguments Raw {float}.
Arguments Search {float}.
Arguments SearchLocation {float}.
Arguments mkChatOptions {float}.
Arguments ReqModel {float}.
Arguments ReqTemperature {float}.
Arguments ReqTopP {float}.
Arguments MaxOutputTokens {float}.
Arguments Tools {float}.
Arguments buildResponseParams {float}.

End Builder.

(** ** Reading a URL

    The classifier never parses its argument.  To say where in a URL the
    marker occurs, the statements below use the authority component of
    an absolute URL [scheme://authority/path?query#fragment]. *)

Module Url.

Fixpoint afterScheme (s : string) : string :=
  match s with
  | String ":" (String "/" (String "/" rest)) => rest
  | String _ rest => afterScheme rest
  | EmptyString => EmptyString
  end.

Fixpoint untilDelimiter (s : string) : string :=
  match s with
  | EmptyString => EmptyString
  | String c rest =>
      if bool_decide (c ∈ ["/"; "?"; "#"]%char) then EmptyString
      else String c (untilDelimiter rest)
  end.

Definition host (url : string) : string := untilDelimiter (afterScheme url).

End Url.

(** ** Fixtures of [openai_test.go] *)

Module Fixtures.
Import Http.

(** The headers [TestCopilotTransportPreservesExistingHeaders] sets. *)
Definition testHeaders : gmap string (list string) :=
  <["Authorization" := ["Bearer test-token"]]>
    (<["Content-Type" := ["application/json"]]>
       (<["User-Agent" := ["test-agent"]]> ∅)).

Definition testRequest : Request :=
  mkRequest "GET" "http://127.0.0.1:8080" "" (Some 1%positive) None.

Definition testStore : Store :=
  mkStore {[1%positive := testRequest]} {[1%positive := testHeaders]}.

(** A caller that has already chosen another API version. *)
Definition presetHeaders : gmap string (list string) :=
  <["X-Github-Api-Version" := ["2022-11-28"]]> testHeaders.

Definition presetStore : Store :=
  mkStore {[1%positive := testRequest]} {[1%positive := presetHeaders]}.

(** A request written as a struct literal, with no [Header] map. *)
Definition bareRequest : Request :=
  mkRequest "GET" "http://127.0.0.1:8080" "" None None.

Definition bareStore : Store :=
  mkStore {[1%positive := bareRequest]} ∅.

(** A server that answers 200, as the test servers do. *)
Definition okTransport : RoundTripper :=
  mkRoundTripper (fun _ => ret (Some (mkResponse 200 ""), None)).

(** The options of [TestBuildResponseRequestWithMaxTokens] and of
    [TestBuildResponseParams_WithSearchAndLocation], with rationals for
    the floating-point fields. *)
Definition maxTokensOptions : Builder.ChatOptions QArith_base.Q :=
  Builder.mkChatOptions "" (QArith_base.Qmake 8 10%positive) (QArith_base.Qmake 9 10%positive) (Some 50) false false None.

Definition searchOptions : Builder.ChatOptions QArith_base.Q :=
  Builder.mkChatOptions "gpt-4o" (QArith_base.Qmake 7 10%positive) (QArith_base.Qmake 0 1%positive) None false true
                        (Some "America/Los_Angeles").

Definition testMessages : list Builder.ChatCompletionMessage :=
  [Builder.mkMessage "User" "My msg"; Builder.mkMessage "User" "My msg"].

(** The three entries of [mockCitations]. *)
Definition mockCitations : list Citations.Citation :=
  [ Citations.mkCitation "https://example.com/ai-research"
                         "AI Research Advances 2025";
    Citations.mkCitation "https://another-source.com/tech-news"
                         "Technology News Today";
    Citations.mkCitation "https://example.com/ai-research"
                         "AI Research Advances 2025" ].

Definition mockText : list string :=
  ["Based on recent research, artificial intelligence is advancing rapidly."].

End Fixtures.

(** * Properties *)

(** ** Byte strings *)

Module StringFacts.
Import Strings.

(** stdpp keeps [String.append] from unfolding under [simpl]; these two
    equations are its defining clauses. *)
Lemma append_nil_l (s : string) : "" +:+ s = s.
Proof. reflexivity. Qed.

Lemma append_cons (c : ascii) (a b : string) :
  String c a +:+ b = String c (a +:+ b).
Proof. reflexivity. Qed.

Ltac app_simpl := rewrite ?append_cons, ?append_nil_l in *.

Lemma append_nil_r (s : string) : s +:+ "" = s.
Proof. induction s as [|c s IH]; app_simpl; [done | by f_equal]. Qed.

Lemma append_assoc (a b c : string) : (a +:+ b) +:+ c = a +:+ b +:+ c.
Proof. induction a as [|x a IH]; app_simpl; [done | by f_equal]. Qed.


Lemma append_length (a b : string) :
  String.length (a +:+ b) = (String.length a + String.length b)%nat.
Proof.
  induction a as [|x a IH]; app_simpl; simpl; [done | by rewrite IH].
Qed.


Lemma HasPrefix_spec (s p : string) :
  HasPrefix s p = true <-> exists post, s = p +:+ post.
Proof.
  revert s. induction p as [|c p IH]; intros s; simpl.
  - split; [intros _; by exists s | done].
  - destruct s as [|d s].
    + split; [done | intros [post H]; discriminate].
    + case_decide as Hc.
      * subst d. rewrite IH. split; intros [post H]; exists post.
        -- by rewrite H.
        -- rewrite append_cons in H. by injection H.
      * split; [done |]. intros [post H]. rewrite append_cons in H.
        injection H as H _. congruence.
Qed.

Lemma Index_lower (s sub : string) : -1 <= Index s sub.
Proof.
  induction s as [|c s IH]; simpl.
  - destruct (HasPrefix "" sub); lia.
  - destruct (HasPrefix (String c s) sub); [lia |].
    destruct (Z.ltb_spec (Index s sub) 0); lia.
Qed.

Lemma Index_found (s sub : string) :
  0 <= Index s sub <-> exists pre post, s = pre +:+ sub +:+ post.
Proof.
  induction s as [|c s IH].
  - simpl. destruct (HasPrefix "" sub) eqn:Hp.
    + apply HasPrefix_spec in Hp as [post Hp].
      split; [intros _; by exists "", post | lia].
    + split; [lia |]. intros (pre & post & H).
      destruct pre; [| discriminate]. rewrite append_nil_l in H.
      assert (HasPrefix "" sub = true) by (apply HasPrefix_spec; eauto).
      congruence.
  - cbn [Index]. destruct (HasPrefix (String c s) sub) eqn:Hp.
    + apply HasPrefix_spec in Hp as [post Hp].
      split; [intros _; by exists "", post | lia].
    + pose proof (Index_lower s sub) as Hl.
      destruct (Z.ltb_spec (Index s sub) 0) as [Hneg|Hpos].
      * split; [lia |]. intros (pre & post & H).
        destruct pre as [|d pre].
        -- rewrite append_nil_l in H.
           assert (HasPrefix (String c s) sub = true)
             by (apply HasPrefix_spec; eauto). congruence.
        -- rewrite append_cons in H. injection H as _ H.
           assert (0 <= Index s sub) by (apply IH; eauto). lia.
      * split; [| lia]. intros _.
        apply IH in Hpos as (pre & post & ->).
        by exists (String c pre), post.
Qed.

Lemma Contains_spec (s sub : string) :
  Contains s sub = true <-> exists pre post, s = pre +:+ sub +:+ post.
Proof.
  unfold Contains. rewrite <- Index_found.
  destruct (Z.geb_spec (Index s sub) 0); split; (done || lia).
Qed.

Lemma mapBytes_app f (a b : string) :
  mapBytes f (a +:+ b) = mapBytes f a +:+ mapBytes f b.
Proof.
  induction a as [|x a IH]; app_simpl; simpl; [done |].
  by rewrite append_cons, IH.
Qed.

Lemma mapBytes_split f (s a b : string) :
  mapBytes f s = a +:+ b ->
  exists a' b', s = a' +:+ b' /\ mapBytes f a' = a /\ mapBytes f b' = b.
Proof.
  revert s. induction a as [|x a IH]; intros s H.
  - by exists "", s.
  - destruct s as [|c s]; [discriminate |]. simpl in H.
    rewrite append_cons in H.
    injection H as Hc H. apply IH in H as (a' & b' & -> & Ha & Hb).
    exists (String c a'), b'. simpl. by rewrite Hc, Ha.
Qed.

Lemma mapBytes_lower_id (s : string) :
  hasUpper s = false -> mapBytes lowerByte s = s.
Proof.
  induction s as [|c s IH]; simpl; [done |].
  intros [Hc Hs]%orb_false_elim. rewrite IH by done.
  unfold lowerByte. by rewrite Hc.
Qed.

Lemma ToLower_ascii U (s : string) :
  isASCII s = true -> ToLower U s = mapBytes lowerByte s.
Proof.
  intros H. unfold ToLower. rewrite H.
  destruct (hasUpper s) eqn:Hu; [done | symmetry; by apply mapBytes_lower_id].
Qed.

Lemma isASCII_app (a b : string) :
  isASCII (a +:+ b) = isASCII a && isASCII b.
Proof.
  induction a as [|x a IH]; app_simpl; simpl; [done |].
  by rewrite IH, andb_assoc.
Qed.

End StringFacts.

(** ** The endpoint classifier *)

Section ClassifierFacts.
Import Strings StringFacts.
Variable U : string -> string.

(** On a URL of ASCII bytes the classifier answers whether some
    substring equals the marker once its upper-case letters are
    lowered. *)
Lemma isGitHubCopilotURL_ascii (url : string) :
  isASCII url = true ->
  isGitHubCopilotURL U url = true <->
  exists pre mid post,
    url = pre +:+ mid +:+ post /\ mapBytes lowerByte mid = marker.
Proof.
  intros Hascii. unfold isGitHubCopilotURL.
  rewrite (ToLower_ascii U url Hascii), Contains_spec. fold marker. split.
  - intros (pre' & post' & H).
    apply mapBytes_split in H as (pre & rest & -> & _ & H).
    apply mapBytes_split in H as (mid & post & -> & Hmid & _).
    by exists pre, mid, post.
  - intros (pre & mid & post & -> & Hmid).
    exists (mapBytes lowerByte pre), (mapBytes lowerByte post).
    by rewrite !mapBytes_app, Hmid.
Qed.

Lemma isGitHubCopilotURL_embedded (pre post : string) :
  isASCII pre = true -> isASCII post = true ->
  isGitHubCopilotURL U (pre +:+ marker +:+ post) = true.
Proof.
  intros Hpre Hpost. apply isGitHubCopilotURL_ascii.
  - by rewrite !isASCII_app, Hpre, Hpost.
  - by exists pre, marker, post.
Qed.


(** C9: the url ["https://example.com/?u=api.githubcopilot.com"] has the
    host [example.com], which does not contain the marker, and is
    classified as a Copilot endpoint all the same; so is every ASCII
    string with the marker anywhere inside it. *)
Theorem isGitHubCopilotURL_ignores_host :
  (exists url,
     Url.host url = "example.com" /\
     Contains (ToLower U (Url.host url)) marker = false /\
     isGitHubCopilotURL U url = true) /\
  (forall pre post, isASCII pre = true -> isASCII post = true ->
     isGitHubCopilotURL U (pre +:+ marker +:+ post) = true).
Proof.
  split.
  - exists "https://example.com/?u=api.githubcopilot.com".
    repeat split; vm_compute; reflexivity.
  - apply isGitHubCopilotURL_embedded.
Qed.

End ClassifierFacts.


Lemma isGitHubCopilotURL_ignores_host_witness :
  Url.host "https://proxy.internal/fwd?to=api.githubcopilot.com&v=1"
  = "proxy.internal" /\
  isGitHubCopilotURL (fun s => s)
    "https://proxy.internal/fwd?to=api.githubcopilot.com&v=1" = true.
Proof.
  split; [vm_compute; reflexivity |].
  destruct (isGitHubCopilotURL_ignores_host (fun s => s)) as (_ & Hany).
  apply (Hany "https://proxy.internal/fwd?to=" "&v=1");
    vm_compute; reflexivity.
Defined.

(** ** The transport *)

Module TransportFacts.
Import Http Copilot.

(** The header key under which [Set] stores the version. *)
Lemma version_key :
  CanonicalMIMEHeaderKey "X-GitHub-Api-Version" = "X-Github-Api-Version".
Proof. vm_compute. reflexivity. Qed.

(** What [RoundTrip] does on a request whose [Header] is initialised, as
    [http.RoundTripper] requires of its callers: it allocates a clone
    with a header map of its own, stores the version in that map and
    calls the base round tripper on the clone. *)
Lemma RoundTrip_run (t : CopilotTransport) (req : loc) (σ : Store)
    (r : Request) (hl : loc) (h : gmap string (list string)) :
  requests σ !! req = Some r ->
  Header r = Some hl ->
  headers σ !! hl = Some h ->
  let hl' := fresh (dom (headers σ)) in
  let newReq := fresh (dom (requests σ)) in
  let r' := mkRequest (Method r) (URL r) (Host r) (Some hl') (Body r) in
  let σ' := mkStore (<[newReq := r']> (requests σ))
              (<[hl' := <["X-Github-Api-Version" := ["2023-05-01"]]> h]>
                 (headers σ)) in
  RoundTrip t req σ =
    match base t with
    | Some b => roundTrip b newReq σ'
    | None => Panic nilDeref
    end.
Proof.
  intros Hreq Hhdr Hmap hl' newReq r' σ'.
  unfold RoundTrip, Request_Clone, bind, loadRequest.
  rewrite Hreq, Hhdr. unfold Header_Clone, bind, allocHeader, ret.
  rewrite Hmap. unfold allocRequest. cbn [requests headers].
  fold hl' newReq. rewrite lookup_insert_eq. cbn [Header].
  unfold Header_Set. cbn [requests headers].
  rewrite lookup_insert_eq, version_key, insert_insert_eq.
  fold r' σ'. destruct (base t); reflexivity.
Qed.

Lemma fresh_header_loc (σ : Store) (l : loc) (m : gmap string (list string)) :
  headers σ !! l = Some m -> fresh (dom (headers σ)) ≠ l.
Proof.
  intros H Heq. apply (is_fresh (dom (headers σ))).
  rewrite Heq. apply elem_of_dom. eauto.
Qed.

Lemma fresh_request_loc (σ : Store) (p : loc) (r : Request) :
  requests σ !! p = Some r -> fresh (dom (requests σ)) ≠ p.
Proof.
  intros H Heq. apply (is_fresh (dom (requests σ))).
  rewrite Heq. apply elem_of_dom. eauto.
Qed.

Lemma base_of_New (D : RoundTripper) (b : option RoundTripper) :
  base (NewCopilotTransport D b) = Some (default D b).
Proof. by destruct b. Qed.

Section Forwarding.
(** [http.DefaultTransport] *)
Variable D : RoundTripper.

(** C2: the request handed to the base round tripper is a clone, a new
    object with the fields of the original and a header map of its own;
    every key other than the version key has the same values in that
    map as in the caller's, no key of the caller's map is missing from
    it, and at the moment of the call the caller's request and header
    map, like every other object of the store, are as they were. *)
Theorem RoundTrip_forwards_clone_with_headers
    (req : loc) (σ : Store) (r : Request) (hl : loc)
    (h : gmap string (list string)) :
  requests σ !! req = Some r ->
  Header r = Some hl ->
  headers σ !! hl = Some h ->
  exists (newReq : loc) (σ' : Store) (r' : Request) (hl' : loc)
         (h' : gmap string (list string)),
    (forall b, RoundTrip (NewCopilotTransport D b) req σ
               = roundTrip (default D b) newReq σ') /\
    newReq ≠ req /\
    requests σ' !! newReq = Some r' /\
    Method r' = Method r /\ URL r' = URL r /\ Host r' = Host r /\
    Body r' = Body r /\
    Header r' = Some hl' /\ hl' ≠ hl /\
    headers σ' !! hl' = Some h' /\
    (forall k, k ≠ CanonicalMIMEHeaderKey "X-GitHub-Api-Version" ->
               h' !! k = h !! k) /\
    (forall k, is_Some (h !! k) -> is_Some (h' !! k)) /\
    (forall name,
        CanonicalMIMEHeaderKey name
          ≠ CanonicalMIMEHeaderKey "X-GitHub-Api-Version" ->
        Header_Get h' name = Header_Get h name) /\
    requests σ' !! req = Some r /\
    headers σ' !! hl = Some h /\
    (forall p x, requests σ !! p = Some x -> requests σ' !! p = Some x) /\
    (forall l m, headers σ !! l = Some m -> headers σ' !! l = Some m).
Proof.
  intros Hreq Hhdr Hmap.
  pose proof (fresh_header_loc σ hl h Hmap) as Hhl.
  pose proof (fresh_request_loc σ req r Hreq) as Hnew.
  set (hl' := fresh (dom (headers σ))) in *.
  exists (fresh (dom (requests σ))),
    (mkStore (<[fresh (dom (requests σ)) :=
                  mkRequest (Method r) (URL r) (Host r) (Some hl') (Body r)]>
                (requests σ))
             (<[hl' := <["X-Github-Api-Version" := ["2023-05-01"]]> h]>
                (headers σ))),
    (mkRequest (Method r) (URL r) (Host r) (Some hl') (Body r)),
    hl', (<["X-Github-Api-Version" := ["2023-05-01"]]> h).
  split.
  { intros b. rewrite (RoundTrip_run _ req σ r hl h Hreq Hhdr Hmap).
    rewrite base_of_New. reflexivity. }
  cbn [requests headers Method URL Host Body Header].
  rewrite version_key.
  repeat match goal with |- _ /\ _ => split end; try done.
  - apply lookup_insert_eq.
  - apply lookup_insert_eq.
  - intros k Hk. by rewrite lookup_insert_ne.
  - intros k Hk. rewrite lookup_insert. case_decide; eauto.
  - intros name Hname. unfold Header_Get. by rewrite lookup_insert_ne.
  - by rewrite lookup_insert_ne.
  - by rewrite lookup_insert_ne.
  - intros p x Hp. rewrite lookup_insert_ne; [done |].
    by apply (fresh_request_loc σ p x).
  - intros l m Hl. rewrite lookup_insert_ne; [done |].
    by apply (fresh_header_loc σ l m).
Qed.

(** C3: whatever the caller's header map holds, also another value for
    the same header, the map of the forwarded clone holds exactly the
    one value ["2023-05-01"] for [X-GitHub-Api-Version]. *)
Theorem RoundTrip_version_always_wins
    (req : loc) (σ : Store) (r : Request) (hl : loc)
    (h : gmap string (list string)) :
  requests σ !! req = Some r ->
  Header r = Some hl ->
  headers σ !! hl = Some h ->
  exists (newReq : loc) (σ' : Store) (r' : Request) (hl' : loc)
         (h' : gmap string (list string)),
    (forall b, RoundTrip (NewCopilotTransport D b) req σ
               = roundTrip (default D b) newReq σ') /\
    requests σ' !! newReq = Some r' /\
    Header r' = Some hl' /\
    headers σ' !! hl' = Some h' /\
    Header_Get h' "X-GitHub-Api-Version" = "2023-05-01" /\
    Header_Values h' "X-GitHub-Api-Version" = ["2023-05-01"].
Proof.
  intros Hreq Hhdr Hmap.
  set (hl' := fresh (dom (headers σ))).
  exists (fresh (dom (requests σ))),
    (mkStore (<[fresh (dom (requests σ)) :=
                  mkRequest (Method r) (URL r) (Host r) (Some hl') (Body r)]>
                (requests σ))
             (<[hl' := <["X-Github-Api-Version" := ["2023-05-01"]]> h]>
                (headers σ))),
    (mkRequest (Method r) (URL r) (Host r) (Some hl') (Body r)),
    hl', (<["X-Github-Api-Version" := ["2023-05-01"]]> h).
  split.
  { intros b. rewrite (RoundTrip_run _ req σ r hl h Hreq Hhdr Hmap).
    rewrite base_of_New. reflexivity. }
  cbn [requests headers Header].
  repeat match goal with |- _ /\ _ => split end.
  - apply lookup_insert_eq.
  - done.
  - apply lookup_insert_eq.
  - unfold Header_Get. by rewrite version_key, lookup_insert_eq.
  - unfold Header_Values. by rewrite version_key, lookup_insert_eq.
Qed.

(** C8: the transport ends in the call of the base round tripper on the
    clone, and the outcome of that call, a response, an error or a
    panic, is the outcome of [RoundTrip], as it is. *)
Theorem RoundTrip_returns_base_outcome
    (req : loc) (σ : Store) (r : Request) (hl : loc)
    (h : gmap string (list string)) :
  requests σ !! req = Some r ->
  Header r = Some hl ->
  headers σ !! hl = Some h ->
  exists (newReq : loc) (σ' : Store),
    (forall b, RoundTrip (NewCopilotTransport D b) req σ
               = roundTrip (default D b) newReq σ') /\
    (forall b resp err σ'',
        roundTrip (default D b) newReq σ' = Ok (resp, err) σ'' ->
        RoundTrip (NewCopilotTransport D b) req σ = Ok (resp, err) σ'') /\
    (forall b msg,
        roundTrip (default D b) newReq σ' = Panic msg ->
        RoundTrip (NewCopilotTransport D b) req σ = Panic msg).
Proof.
  intros Hreq Hhdr Hmap.
  pose proof (fun t => RoundTrip_run t req σ r hl h Hreq Hhdr Hmap) as Hrun.
  cbv zeta in Hrun.
  eexists _, _. split; [| split].
  - intros b. rewrite Hrun, base_of_New. reflexivity.
  - intros b resp err σ'' Hbase. by rewrite Hrun, base_of_New.
  - intros b msg Hbase. by rewrite Hrun, base_of_New.
Qed.

End Forwarding.

(** X2: outside the contract of [http.RoundTripper]: a request whose
    [Header] is the nil map makes [Set] panic. *)
Lemma RoundTrip_nil_header (t : CopilotTransport) (req : loc) (σ : Store)
    (r : Request) :
  requests σ !! req = Some r ->
  Header r = None ->
  RoundTrip t req σ = Panic nilMapWrite.
Proof.
  intros Hreq Hhdr.
  unfold RoundTrip, Request_Clone, bind, loadRequest.
  rewrite Hreq, Hhdr. unfold Header_Clone, ret, allocRequest.
  cbn [requests headers]. rewrite lookup_insert_eq. reflexivity.
Qed.

Lemma RoundTrip_forwards_clone_with_headers_witness :
  exists (newReq : loc) (σ' : Store) (r' : Request) (hl' : loc)
         (h' : gmap string (list string)),
    RoundTrip (NewCopilotTransport Fixtures.okTransport None) 1%positive
              Fixtures.testStore
      = roundTrip Fixtures.okTransport newReq σ' /\
    requests σ' !! newReq = Some r' /\
    Header r' = Some hl' /\
    headers σ' !! hl' = Some h' /\
    Header_Get h' "Authorization" = "Bearer test-token" /\
    Header_Get h' "Content-Type" = "application/json" /\
    Header_Get h' "User-Agent" = "test-agent" /\
    requests σ' !! 1%positive = Some Fixtures.testRequest /\
    headers σ' !! 1%positive = Some Fixtures.testHeaders.
Proof.
  destruct (RoundTrip_forwards_clone_with_headers Fixtures.okTransport
              1%positive Fixtures.testStore Fixtures.testRequest 1%positive
              Fixtures.testHeaders)
    as (newReq & σ' & r' & hl' & h' & Hrun & _ & Hr' & _ & _ & _ & _ & Hhl'
        & _ & Hh' & _ & _ & Hget & Horig & Hmap & _).
  - vm_compute. reflexivity.
  - reflexivity.
  - vm_compute. reflexivity.
  - exists newReq, σ', r', hl', h'.
    repeat match goal with |- _ /\ _ => split end;
      try assumption.
    + apply (Hrun None).
    + rewrite Hget; [| vm_compute; discriminate]. vm_compute. reflexivity.
    + rewrite Hget; [| vm_compute; discriminate]. vm_compute. reflexivity.
    + rewrite Hget; [| vm_compute; discriminate]. vm_compute. reflexivity.
Defined.

Lemma RoundTrip_version_always_wins_witness :
  Header_Get Fixtures.presetHeaders "X-GitHub-Api-Version" = "2022-11-28" /\
  exists (newReq : loc) (σ' : Store) (r' : Request) (hl' : loc)
         (h' : gmap string (list string)),
    RoundTrip (NewCopilotTransport Fixtures.okTransport None) 1%positive
              Fixtures.presetStore
      = roundTrip Fixtures.okTransport newReq σ' /\
    requests σ' !! newReq = Some r' /\
    Header r' = Some hl' /\
    headers σ' !! hl' = Some h' /\
    Header_Get h' "X-GitHub-Api-Version" = "2023-05-01".
Proof.
  split; [vm_compute; reflexivity |].
  destruct (RoundTrip_version_always_wins Fixtures.okTransport
              1%positive Fixtures.presetStore Fixtures.testRequest 1%positive
              Fixtures.presetHeaders)
    as (newReq & σ' & r' & hl' & h' & Hrun & Hr' & Hhl' & Hh' & Hget & _).
  - vm_compute. reflexivity.
  - reflexivity.
  - vm_compute. reflexivity.
  - exists newReq, σ', r', hl', h'.
    repeat match goal with |- _ /\ _ => split end; try assumption.
    apply (Hrun None).
Defined.

Lemma RoundTrip_returns_base_outcome_witness :
  exists σ'' : Store,
    RoundTrip (NewCopilotTransport Fixtures.okTransport None) 1%positive
              Fixtures.testStore
    = Ok (Some (mkResponse 200 ""), None) σ''.
Proof.
  destruct (RoundTrip_returns_base_outcome Fixtures.okTransport
              1%positive Fixtures.testStore Fixtures.testRequest 1%positive
              Fixtures.testHeaders)
    as (newReq & σ' & _ & Hok & _).
  - vm_compute. reflexivity.
  - reflexivity.
  - vm_compute. reflexivity.
  - exists σ'. apply (Hok None). reflexivity.
Defined.

End TransportFacts.

(** ** Citations *)

Module CitationFacts.
Import Strings StringFacts Citations.

Lemma seen_insert (m : gmap string bool) (k k' : string) :
  seen (<[k := true]> m) k' = false <-> seen m k' = false /\ k' ≠ k.
Proof.
  unfold seen. rewrite lookup_insert. case_decide as Hk; simpl.
  - subst k'. split; [done | by intros [_ ?]].
  - split; [intros H; split; [done | congruence] | by intros [? _]].
Qed.

(** The loop started in any state: the lines already collected, then
    the lines of the first occurrences whose key the map has not seen. *)
Lemma foldl_visit (entries : list Citation) (m : gmap string bool)
    (acc : list string) :
  snd (foldl visit (m, acc) entries)
  = acc ++ (citationText <$>
              filter (fun e => seen m (citationKey e) = false)
                     (firstSeen entries)).
Proof.
  revert m acc. induction entries as [|e entries IH]; intros m acc.
  - simpl. by rewrite List.app_nil_r.
  - cbn [foldl firstSeen]. unfold visit at 2.
    destruct (seen m (citationKey e)) eqn:Hseen; cbn [negb].
    + rewrite IH, filter_cons_False by congruence.
      rewrite list_filter_filter_l; [done |].
      intros x Hx Heq. congruence.
    + rewrite IH, filter_cons_True by done.
      rewrite list_filter_filter.
      rewrite (list_filter_iff _
                 (fun a => seen m (citationKey a) = false
                           /\ citationKey a ≠ citationKey e))
        by (intros x; apply seen_insert).
      by rewrite fmap_cons, <- List.app_assoc.
Qed.

Lemma collate_firstSeen (entries : list Citation) :
  collate entries = citationText <$> firstSeen entries.
Proof.
  unfold collate. rewrite foldl_visit. simpl.
  f_equal. induction (firstSeen entries) as [|x l IH]; [done |].
  rewrite filter_cons_True by done. by rewrite IH.
Qed.

Lemma firstSeen_sublist (entries : list Citation) :
  firstSeen entries `sublist_of` entries.
Proof.
  induction entries as [|e entries IH]; simpl; [done |].
  apply sublist_skip. etrans; [apply sublist_filter | done].
Qed.

Lemma firstSeen_NoDup (entries : list Citation) :
  NoDup (citationKey <$> firstSeen entries).
Proof.
  induction entries as [|e entries IH]; simpl; [constructor |].
  rewrite ?fmap_cons. apply NoDup_cons. split.
  - intros (x & Hx & Hin)%list_elem_of_fmap.
    apply list_elem_of_filter in Hin as [Hne _]. congruence.
  - eapply sublist_NoDup; [exact IH |].
    apply (fmap_sublist citationKey), sublist_filter.
Qed.

Lemma firstSeen_covers (entries : list Citation) (e : Citation) :
  e ∈ entries -> citationKey e ∈ citationKey <$> firstSeen entries.
Proof.
  induction entries as [|x entries IH]; [by intros ?%elem_of_nil |].
  intros [-> | Hin]%elem_of_cons; simpl; rewrite ?fmap_cons.
  - apply elem_of_cons. by left.
  - apply elem_of_cons.
    destruct (decide (citationKey e = citationKey x)) as [|Hne]; [by left |].
    right. apply IH in Hin as (y & Hy & Hin)%list_elem_of_fmap.
    apply list_elem_of_fmap. exists y. split; [done |].
    apply list_elem_of_filter. split; [congruence | done].
Qed.

(** An entry is kept exactly when it occurs with no earlier entry of
    the same key. *)
Lemma elem_of_firstSeen (entries : list Citation) (e : Citation) :
  e ∈ firstSeen entries <->
  exists pre post,
    entries = pre ++ e :: post /\ citationKey e ∉ citationKey <$> pre.
Proof.
  induction entries as [|x entries IH]; simpl.
  - split; [by intros ?%elem_of_nil |].
    intros (pre & post & H & _). by destruct pre.
  - rewrite elem_of_cons, list_elem_of_filter, IH. split.
    + intros [-> | [Hne (pre & post & -> & Hpre)]].
      * exists [], entries. split; [done |]. apply not_elem_of_nil.
      * exists (x :: pre), post. split; [done |].
        rewrite ?fmap_cons. apply not_elem_of_cons. done.
    + intros (pre & post & H & Hpre). destruct pre as [|y pre].
      * injection H as -> _. by left.
      * injection H as -> ->. rewrite ?fmap_cons in Hpre.
        apply not_elem_of_cons in Hpre as [Hne Hpre]. right.
        split; [done |]. by exists pre, post.
Qed.

Lemma filter_other_keys_id (l : list Citation) (e : Citation) :
  citationKey e ∉ citationKey <$> l ->
  filter (fun x => citationKey x ≠ citationKey e) l = l.
Proof.
  induction l as [|x l IH]; [done |].
  rewrite fmap_cons. intros [Hne Hni]%not_elem_of_cons.
  rewrite filter_cons_True by congruence. by rewrite IH.
Qed.

Lemma firstSeen_NoDup_id (entries : list Citation) :
  NoDup (citationKey <$> entries) -> firstSeen entries = entries.
Proof.
  induction entries as [|e entries IH]; [done |].
  rewrite fmap_cons. intros [Hnotin Hnd]%NoDup_cons. simpl.
  by rewrite IH, filter_other_keys_id.
Qed.

(** The first occurrences of a concatenation: those of the first part,
    then those of the second part whose key the first part lacks. *)
Lemma firstSeen_app (l1 l2 : list Citation) :
  firstSeen (l1 ++ l2)
  = firstSeen l1
    ++ filter (fun x => citationKey x ∉ citationKey <$> l1) (firstSeen l2).
Proof.
  induction l1 as [|x l1 IH].
  - simpl. induction (firstSeen l2) as [|y l IHl]; [done |].
    rewrite filter_cons_True by apply not_elem_of_nil. by rewrite <- IHl.
  - simpl. rewrite IH, filter_app, list_filter_filter. do 2 f_equal.
    apply list_filter_iff. intros y.
    rewrite not_elem_of_cons. tauto.
Qed.





Lemma collate_nonempty (e : Citation) (entries : list Citation) :
  exists line lines, collate (e :: entries) = line :: lines.
Proof. rewrite collate_firstSeen. simpl. eauto. Qed.

(** C6: [collate] renders, as [- [title](url)], the entries that no
    earlier entry shares its key [url|title] with, in the order of the
    input: the kept entries are a subsequence of the input with pairwise
    different keys, every key of the input is among theirs, and an entry
    is kept exactly where it occurs with no equal key before it.  The
    result text gets the Sources header and a blank line before the
    lines when there is an entry, and nothing when there is none.  On
    [A; B; A] the lines are those of A and B, in this order; keys that
    differ in letter case only are different keys. *)
Theorem collate_dedups_in_first_seen_order :
  (forall e, citationText e = "- [" +:+ Title e +:+ "](" +:+ URL e +:+ ")") /\
  (forall entries, collate entries = citationText <$> firstSeen entries) /\
  (forall entries, firstSeen entries `sublist_of` entries) /\
  (forall entries, NoDup (citationKey <$> firstSeen entries)) /\
  (forall entries e,
      e ∈ entries -> citationKey e ∈ citationKey <$> firstSeen entries) /\
  (forall entries e,
      e ∈ firstSeen entries <->
      exists pre post,
        entries = pre ++ e :: post /\ citationKey e ∉ citationKey <$> pre) /\
  (forall entries,
      length (collate entries) = length (firstSeen entries)) /\
  collate [] = [] /\
  (forall textParts, formatResult textParts [] = Join textParts "") /\
  (forall textParts entries,
      entries ≠ [] ->
      collate entries ≠ [] /\
      formatResult textParts entries
      = Join textParts "" +:+ sourcesHeader +:+ Join (collate entries) newline) /\
  sourcesHeader
  = String "010" (String "010" ("## Sources" +:+ String "010" (String "010" ""))) /\
  (forall a b,
      collate [a; b; a]
      = if decide (citationKey a = citationKey b) then [citationText a]
        else [citationText a; citationText b]) /\
  collate Fixtures.mockCitations
  = ["- [AI Research Advances 2025](https://example.com/ai-research)";
     "- [Technology News Today](https://another-source.com/tech-news)"] /\
  collate [mkCitation "https://example.com/Page" "Title";
           mkCitation "https://example.com/page" "Title";
           mkCitation "https://example.com/page" "title"]
  = ["- [Title](https://example.com/Page)";
     "- [Title](https://example.com/page)";
     "- [title](https://example.com/page)"].
Proof.
  repeat match goal with |- _ /\ _ => split end.
  - done.
  - apply collate_firstSeen.
  - apply firstSeen_sublist.
  - apply firstSeen_NoDup.
  - apply firstSeen_covers.
  - apply elem_of_firstSeen.
  - intros entries. by rewrite collate_firstSeen, length_fmap.
  - done.
  - done.
  - intros textParts [|e entries] Hne; [done |].
    destruct (collate_nonempty e entries) as (line & lines & Hc).
    unfold formatResult. rewrite Hc. done.
  - vm_compute. reflexivity.
  - intros a b. rewrite collate_firstSeen. simpl.
    case_decide as Hk;
      repeat first
        [ rewrite filter_nil
        | rewrite filter_cons_True by congruence
        | rewrite filter_cons_False by (intros Hne; apply Hne; congruence) ];
      done.
  - vm_compute. reflexivity.
  - vm_compute. reflexivity.
Qed.

Lemma collate_dedups_in_first_seen_order_witness :
  Fixtures.mockCitations ≠ [] /\
  formatResult Fixtures.mockText Fixtures.mockCitations
  = Join Fixtures.mockText ""
    +:+ sourcesHeader
    +:+ Join (collate Fixtures.mockCitations) newline.
Proof.
  assert (Fixtures.mockCitations ≠ []) as Hne by discriminate.
  split; [exact Hne |].
  destruct collate_dedups_in_first_seen_order
    as (_ & _ & _ & _ & _ & _ & _ & _ & _ & Hfmt & _).
  exact (proj2 (Hfmt Fixtures.mockText Fixtures.mockCitations Hne)).
Defined.



(** C10: the key is the url, a ["|"] and the title, and it does not
    determine the entry: the entries ["a|b", "c"] and ["a", "b|c"]
    differ in url and in title and have one key, so that whichever of
    the two comes second is dropped. *)
Theorem citationKey_not_injective :
  (forall e, citationKey e = URL e +:+ "|" +:+ Title e) /\
  (exists e1 e2,
     e1 = mkCitation "a|b" "c" /\ e2 = mkCitation "a" "b|c" /\
     URL e1 ≠ URL e2 /\ Title e1 ≠ Title e2 /\
     citationKey e1 = citationKey e2 /\
     collate [e1; e2] = [citationText e1] /\
     collate [e2; e1] = [citationText e2] /\
     citationText e1 ≠ citationText e2) /\
  ~ (forall e1 e2, citationKey e1 = citationKey e2 -> e1 = e2).
Proof.
  split; [done |]. split.
  - exists (mkCitation "a|b" "c"), (mkCitation "a" "b|c").
    repeat match goal with |- _ /\ _ => split end;
      try done; vm_compute; reflexivity.
  - intros Hinj.
    specialize (Hinj (mkCitation "a|b" "c") (mkCitation "a" "b|c")
                     eq_refl).
    discriminate.
Qed.

End CitationFacts.

(** ** The request builder *)

Module BuilderFacts.
Import Builder.

Section Build.
Context {float : Type}.
Implicit Types (msgs : list ChatCompletionMessage) (opts : ChatOptions float).

(** C4: without search the request has no tool list at all; with
    search the list holds the single web search tool tagged
    ["web_search_preview"], whose user location is there, of type
    ["approximate"] and with the search location as time zone, exactly
    when the search location is a string that is not empty. *)
Theorem buildResponseParams_tools msgs opts :
  (Search opts = false -> Tools (buildResponseParams msgs opts) = None) /\
  (Search opts = true ->
     exists location,
       Tools (buildResponseParams msgs opts)
       = Some [OfWebSearchPreview
                 (mkWebSearchTool "web_search_preview" location)] /\
       (forall tz, SearchLocation opts = Some tz -> tz ≠ "" ->
                   location = Some (mkUserLocation "approximate" (Some tz))) /\
       (SearchLocation opts = None \/ SearchLocation opts = Some "" ->
        location = None) /\
       (is_Some location <->
        exists tz, SearchLocation opts = Some tz /\ tz ≠ "")) /\
  Tools (buildResponseParams msgs opts) ≠ Some [].
Proof.
  unfold buildResponseParams. cbn [Tools].
  destruct (Search opts); (split; [| split]); try done.
  intros _. eexists. split; [reflexivity |].
  destruct (SearchLocation opts) as [tz|]; [case_decide as Htz |].
  - subst tz. split; [| split; [| split]].
    + by intros tz [= <-] ?.
    + done.
    + by intros [? ?].
    + by intros (tz & [= <-] & ?).
  - split; [| split; [| split]].
    + by intros tz' [= <-] _.
    + intros [? | [= ?]]; congruence.
    + intros _. by exists tz.
    + intros _. eauto.
  - split; [| split; [| split]].
    + by intros tz ? _.
    + done.
    + by intros [? ?].
    + by intros (tz & ? & _).
Qed.

(** C5: the request carries [MaxOutputTokens] exactly when the options
    carry a [MaxTokens] other than zero, and then with that value: 50
    for 50, and no value, rather than zero, for a [MaxTokens] that is
    unset or zero. *)
Theorem buildResponseParams_maxOutputTokens msgs opts :
  (is_Some (MaxOutputTokens (buildResponseParams msgs opts)) <->
   exists n, MaxTokens opts = Some n /\ n ≠ 0) /\
  (forall n, MaxTokens opts = Some n -> n ≠ 0 ->
             MaxOutputTokens (buildResponseParams msgs opts) = Some n) /\
  (MaxTokens opts = Some 50 ->
   MaxOutputTokens (buildResponseParams msgs opts) = Some 50) /\
  (MaxTokens opts = None \/ MaxTokens opts = Some 0 ->
   MaxOutputTokens (buildResponseParams msgs opts) = None) /\
  MaxOutputTokens (buildResponseParams msgs opts) ≠ Some 0.
Proof.
  unfold buildResponseParams. cbn [MaxOutputTokens].
  destruct (MaxTokens opts) as [n|]; [destruct (Z.eqb_spec n 0) as [->|Hn] |];
    repeat match goal with |- _ /\ _ => split end.
  - split; [by intros [? ?] | by intros (n & [= <-] & ?)].
  - by intros n [= <-] ?.
  - done.
  - done.
  - done.
  - split; [intros _; by exists n | intros _; eauto].
  - by intros n' [= <-] _.
  - by intros [= ->].
  - intros [? | [= ?]]; congruence.
  - congruence.
  - split; [by intros [? ?] | by intros (n & ? & _)].
  - done.
  - done.
  - done.
  - done.
Qed.

End Build.

Lemma buildResponseParams_tools_witness :
  Tools (buildResponseParams Fixtures.testMessages Fixtures.searchOptions)
  = Some [OfWebSearchPreview
            (mkWebSearchTool "web_search_preview"
               (Some (mkUserLocation "approximate"
                        (Some "America/Los_Angeles"))))] /\
  Tools (buildResponseParams Fixtures.testMessages Fixtures.maxTokensOptions)
  = None.
Proof.
  split.
  - destruct (buildResponseParams_tools Fixtures.testMessages
                Fixtures.searchOptions) as (_ & Hon & _).
    destruct (Hon eq_refl) as (location & -> & Hloc & _).
    by rewrite (Hloc "America/Los_Angeles" eq_refl ltac:(discriminate)).
  - by apply (buildResponseParams_tools Fixtures.testMessages
                Fixtures.maxTokensOptions).
Defined.

Lemma buildResponseParams_maxOutputTokens_witness :
  MaxOutputTokens
    (buildResponseParams Fixtures.testMessages Fixtures.maxTokensOptions)
  = Some 50 /\
  MaxOutputTokens
    (buildResponseParams Fixtures.testMessages Fixtures.searchOptions)
  = None.
Proof.
  split.
  - by apply (buildResponseParams_maxOutputTokens Fixtures.testMessages
                Fixtures.maxTokensOptions).
  - apply (buildResponseParams_maxOutputTokens Fixtures.testMessages
             Fixtures.searchOptions). by left.
Defined.

End BuilderFacts.

(** ** The transport: edge cases, footprint and composition *)

Module TransportExtras.
Import Http Copilot TransportFacts.

(** X1: the zero value of [CopilotTransport], with a nil [base], panics at
    the call of the base round tripper; [NewCopilotTransport] never
    builds it: a nil argument is replaced by [http.DefaultTransport] and
    any other argument is kept (as [TestNewCopilotTransport] checks). *)
Theorem nil_base_only_without_constructor :
  (forall D, base (NewCopilotTransport D None) = Some D) /\
  (forall D b, base (NewCopilotTransport D (Some b)) = Some b) /\
  (forall (req : loc) (σ : Store) (r : Request) (hl : loc)
          (h : gmap string (list string)),
     requests σ !! req = Some r ->
     Header r = Some hl ->
     headers σ !! hl = Some h ->
     RoundTrip (mkCopilotTransport None) req σ = Panic nilDeref).
Proof.
  split; [done |]. split; [done |].
  intros req σ r hl h Hreq Hhdr Hmap.
  by rewrite (RoundTrip_run _ req σ r hl h Hreq Hhdr Hmap).
Qed.

Lemma nil_base_only_without_constructor_witness :
  RoundTrip (mkCopilotTransport None) 1%positive Fixtures.testStore
  = Panic nilDeref.
Proof.
  destruct nil_base_only_without_constructor as (_ & _ & Hnil).
  apply (Hnil 1%positive Fixtures.testStore Fixtures.testRequest 1%positive
              Fixtures.testHeaders);
    vm_compute; reflexivity.
Defined.

Lemma RoundTrip_nil_header_witness :
  RoundTrip (NewCopilotTransport Fixtures.okTransport None) 1%positive
            Fixtures.bareStore
  = Panic nilMapWrite.
Proof.
  apply (RoundTrip_nil_header _ 1%positive Fixtures.bareStore
                              Fixtures.bareRequest);
    vm_compute; reflexivity.
Defined.



Section Footprint.
Variable D : RoundTripper.


End Footprint.


(** *** Header names in any letter case *)

Lemma validHeaderFieldByte_lower (c : ascii) :
  validHeaderFieldByte (Strings.lowerByte c) = validHeaderFieldByte c.
Proof. destruct c as [[] [] [] [] [] [] [] []]; vm_compute; reflexivity. Qed.

Lemma allValid_lower (s : string) :
  allValid (Strings.mapBytes Strings.lowerByte s) = allValid s.
Proof.
  induction s as [|c s IH]; simpl; [done |].
  by rewrite validHeaderFieldByte_lower, IH.
Qed.

Lemma canonCase_lower (upper : bool) (s : string) :
  canonCase upper (Strings.mapBytes Strings.lowerByte s) = canonCase upper s.
Proof.
  revert upper. induction s as [|c s IH]; intros upper; [done |].
  cbn [Strings.mapBytes canonCase].
  assert (forall u (d : ascii),
    (let n := Strings.byteVal (Strings.lowerByte d) in
     if u && (97 <=? n) && (n <=? 122)
     then ascii_of_N (Z.to_N (n - 32))
     else if negb u && (65 <=? n) && (n <=? 90)
          then ascii_of_N (Z.to_N (n + 32)) else Strings.lowerByte d)
    = (let n := Strings.byteVal d in
       if u && (97 <=? n) && (n <=? 122)
       then ascii_of_N (Z.to_N (n - 32))
       else if negb u && (65 <=? n) && (n <=? 90)
            then ascii_of_N (Z.to_N (n + 32)) else d)) as Hbyte.
  { intros [] [[] [] [] [] [] [] [] []]; vm_compute; reflexivity. }
  cbv zeta in Hbyte |- *. rewrite Hbyte. by rewrite IH.
Qed.

(** Keys that differ in letter case only have one canonical form,
    provided they consist of token bytes. *)
Lemma CanonicalMIMEHeaderKey_lower (s : string) :
  allValid s = true ->
  CanonicalMIMEHeaderKey (Strings.mapBytes Strings.lowerByte s)
  = CanonicalMIMEHeaderKey s.
Proof.
  intros Hvalid. unfold CanonicalMIMEHeaderKey.
  by rewrite allValid_lower, Hvalid, canonCase_lower.
Qed.

Section Compose.
Variable D : RoundTripper.

(** X5: the version header of the forwarded clone is found under its name
    in any letter case, as [Header.Get] finds it for the servers of the
    tests: every [name] that lowers to [x-github-api-version] reads
    ["2023-05-01"]. *)
Theorem RoundTrip_version_any_case
    (req : loc) (σ : Store) (r : Request) (hl : loc)
    (h : gmap string (list string)) :
  requests σ !! req = Some r ->
  Header r = Some hl ->
  headers σ !! hl = Some h ->
  exists (newReq : loc) (σ' : Store) (r' : Request) (hl' : loc)
         (h' : gmap string (list string)),
    (forall b, RoundTrip (NewCopilotTransport D b) req σ
               = roundTrip (default D b) newReq σ') /\
    requests σ' !! newReq = Some r' /\
    Header r' = Some hl' /\
    headers σ' !! hl' = Some h' /\
    (forall name,
        Strings.mapBytes Strings.lowerByte name = "x-github-api-version" ->
        Header_Get h' name = "2023-05-01").
Proof.
  intros Hreq Hhdr Hmap.
  pose proof (fun t => RoundTrip_run t req σ r hl h Hreq Hhdr Hmap) as Hrun.
  cbv zeta in Hrun.
  eexists _, _, _, _, _. split.
  { intros b. rewrite Hrun, base_of_New. reflexivity. }
  cbn [requests headers].
  split; [apply lookup_insert_eq |].
  split; [reflexivity |].
  split; [apply lookup_insert_eq |].
  intros name Hname.
  assert (allValid name = true) as Hvalid.
  { rewrite <- allValid_lower, Hname. vm_compute. reflexivity. }
  unfold Header_Get.
  rewrite <- (CanonicalMIMEHeaderKey_lower name Hvalid), Hname.
  replace (CanonicalMIMEHeaderKey "x-github-api-version")
    with "X-Github-Api-Version" by (vm_compute; reflexivity).
  by rewrite lookup_insert_eq.
Qed.

(** X6: a [CopilotTransport] whose base is another [CopilotTransport]
    clones twice and sets the header twice, and what reaches the inner
    base is what one transport alone forwards: the caller's headers with
    the one version value, the caller's request and map still as they
    were. *)
Theorem RoundTrip_stacked
    (req : loc) (σ : Store) (r : Request) (hl : loc)
    (h : gmap string (list string)) :
  requests σ !! req = Some r ->
  Header r = Some hl ->
  headers σ !! hl = Some h ->
  exists (newReq : loc) (σ' : Store) (r' : Request) (hl' : loc),
    (forall b,
        RoundTrip
          (NewCopilotTransport D
             (Some (asRoundTripper (NewCopilotTransport D b)))) req σ
        = roundTrip (default D b) newReq σ') /\
    requests σ' !! newReq = Some r' /\
    Header r' = Some hl' /\
    headers σ' !! hl'
    = Some (<[CanonicalMIMEHeaderKey "X-GitHub-Api-Version" := ["2023-05-01"]]> h) /\
    Method r' = Method r /\ URL r' = URL r /\ Host r' = Host r /\
    Body r' = Body r /\
    requests σ' !! req = Some r /\
    headers σ' !! hl = Some h.
Proof.
  intros Hreq Hhdr Hmap.
  pose proof (fresh_header_loc σ hl h Hmap) as Hhl.
  pose proof (fresh_request_loc σ req r Hreq) as Hnew.
  pose proof (fun t => RoundTrip_run t req σ r hl h Hreq Hhdr Hmap) as Hrun.
  cbv zeta in Hrun.
  set (hl1 := fresh (dom (headers σ))) in *.
  set (p1 := fresh (dom (requests σ))) in *.
  set (r1 := mkRequest (Method r) (URL r) (Host r) (Some hl1) (Body r)) in *.
  set (h1 := <["X-Github-Api-Version" := ["2023-05-01"]]> h) in *.
  set (σ1 := mkStore (<[p1 := r1]> (requests σ)) (<[hl1 := h1]> (headers σ)))
    in *.
  assert (requests σ1 !! p1 = Some r1) as Hreq1 by apply lookup_insert_eq.
  assert (headers σ1 !! hl1 = Some h1) as Hmap1 by apply lookup_insert_eq.
  pose proof (fresh_header_loc σ1 hl1 h1 Hmap1) as Hhl1.
  pose proof (fresh_request_loc σ1 p1 r1 Hreq1) as Hnew1.
  assert (headers σ1 !! hl = Some h) as Hmap0
      by (cbn; by rewrite lookup_insert_ne).
  assert (requests σ1 !! req = Some r) as Hreq0
      by (cbn; by rewrite lookup_insert_ne).
  pose proof (fresh_header_loc σ1 hl h Hmap0) as Hhl0.
  pose proof (fresh_request_loc σ1 req r Hreq0) as Hnew0.
  pose proof (fun t => RoundTrip_run t p1 σ1 r1 hl1 h1 Hreq1 eq_refl Hmap1)
    as Hrun1.
  cbv zeta in Hrun1.
  eexists _, _, _, _. split.
  { intros b. rewrite Hrun, base_of_New.
    match goal with
    | |- _ = ?rhs => change (RoundTrip (NewCopilotTransport D b) p1 σ1 = rhs)
    end.
    rewrite Hrun1, base_of_New. reflexivity. }
  cbn [requests headers].
  split; [apply lookup_insert_eq |].
  split; [reflexivity |].
  split.
  { rewrite lookup_insert_eq, version_key. unfold h1.
    by rewrite insert_insert_eq. }
  cbn [Method URL Host Body r1].
  repeat match goal with |- _ /\ _ => split end; try reflexivity.
  - by rewrite lookup_insert_ne.
  - by rewrite lookup_insert_ne.
Qed.

(** X7: a caller may send one request again: with a base round tripper
    that returns and leaves the store alone, a second [RoundTrip] on
    the same request succeeds like the first, and the request and its
    header map still are as they were before the first. *)
Theorem RoundTrip_request_reusable (b : option RoundTripper)
    (req : loc) (σ : Store) (r : Request) (hl : loc)
    (h : gmap string (list string)) :
  (forall p τ, exists reply, roundTrip (default D b) p τ = Ok reply τ) ->
  requests σ !! req = Some r ->
  Header r = Some hl ->
  headers σ !! hl = Some h ->
  exists reply1 σ1 reply2 σ2,
    RoundTrip (NewCopilotTransport D b) req σ = Ok reply1 σ1 /\
    RoundTrip (NewCopilotTransport D b) req σ1 = Ok reply2 σ2 /\
    requests σ1 !! req = Some r /\ headers σ1 !! hl = Some h /\
    requests σ2 !! req = Some r /\ headers σ2 !! hl = Some h /\
    size (requests σ2) = S (S (size (requests σ))).
Proof.
  intros Hpure Hreq Hhdr Hmap.
  pose proof (fresh_header_loc σ hl h Hmap) as Hhl.
  pose proof (fresh_request_loc σ req r Hreq) as Hnew.
  pose proof (RoundTrip_run (NewCopilotTransport D b) req σ r hl h
                Hreq Hhdr Hmap) as Hrun.
  cbv zeta in Hrun. rewrite base_of_New in Hrun.
  destruct (Hpure (fresh (dom (requests σ)))
    (mkStore
       (<[fresh (dom (requests σ)) :=
            mkRequest (Method r) (URL r) (Host r)
                      (Some (fresh (dom (headers σ)))) (Body r)]>
          (requests σ))
       (<[fresh (dom (headers σ)) :=
            <["X-Github-Api-Version" := ["2023-05-01"]]> h]> (headers σ))))
    as [reply1 Hb1].
  rewrite Hb1 in Hrun. clear Hb1.
  match type of Hrun with _ = Ok _ ?s => set (σ1 := s) in * end.
  assert (requests σ1 !! req = Some r) as Hreq1
      by (cbn; by rewrite lookup_insert_ne).
  assert (headers σ1 !! hl = Some h) as Hmap1
      by (cbn; by rewrite lookup_insert_ne).
  pose proof (fresh_header_loc σ1 hl h Hmap1) as Hhl1.
  pose proof (fresh_request_loc σ1 req r Hreq1) as Hnew1.
  pose proof (RoundTrip_run (NewCopilotTransport D b) req σ1 r hl h
                Hreq1 Hhdr Hmap1) as Hrun1.
  cbv zeta in Hrun1. rewrite base_of_New in Hrun1.
  match type of Hrun1 with _ = roundTrip _ ?p ?s =>
    destruct (Hpure p s) as [reply2 Hb2]; rewrite Hb2 in Hrun1; clear Hb2
  end.
  eexists reply1, σ1, reply2, _.
  split; [exact Hrun |]. split; [exact Hrun1 |].
  split; [exact Hreq1 |]. split; [exact Hmap1 |].
  cbn [requests headers].
  split; [by rewrite lookup_insert_ne |].
  split; [by rewrite lookup_insert_ne |].
  rewrite map_size_insert_None.
  - f_equal. unfold σ1. cbn [requests]. rewrite map_size_insert_None; [done |].
    apply not_elem_of_dom, is_fresh.
  - apply not_elem_of_dom, is_fresh.
Qed.

End Compose.

Lemma RoundTrip_stacked_witness :
  exists (newReq : loc) (σ' : Store) (r' : Request) (hl' : loc),
    RoundTrip
      (NewCopilotTransport Fixtures.okTransport
         (Some (asRoundTripper
                  (NewCopilotTransport Fixtures.okTransport None))))
      1%positive Fixtures.presetStore
    = roundTrip Fixtures.okTransport newReq σ' /\
    requests σ' !! newReq = Some r' /\
    Header r' = Some hl' /\
    headers σ' !! hl'
    = Some (<["X-Github-Api-Version" := ["2023-05-01"]]> Fixtures.testHeaders).
Proof.
  destruct (RoundTrip_stacked Fixtures.okTransport
              1%positive Fixtures.presetStore Fixtures.testRequest 1%positive
              Fixtures.presetHeaders)
    as (newReq & σ' & r' & hl' & Hrun & Hr' & Hhl' & Hh' & _).
  - vm_compute. reflexivity.
  - reflexivity.
  - vm_compute. reflexivity.
  - exists newReq, σ', r', hl'.
    repeat match goal with |- _ /\ _ => split end; try assumption.
    apply (Hrun None).
Defined.

Lemma RoundTrip_request_reusable_witness :
  exists reply1 σ1 reply2 σ2,
    RoundTrip (NewCopilotTransport Fixtures.okTransport None) 1%positive
              Fixtures.testStore = Ok reply1 σ1 /\
    RoundTrip (NewCopilotTransport Fixtures.okTransport None) 1%positive
              σ1 = Ok reply2 σ2 /\
    requests σ2 !! 1%positive = Some Fixtures.testRequest /\
    headers σ2 !! 1%positive = Some Fixtures.testHeaders.
Proof.
  destruct (RoundTrip_request_reusable Fixtures.okTransport None
              1%positive Fixtures.testStore Fixtures.testRequest 1%positive
              Fixtures.testHeaders)
    as (reply1 & σ1 & reply2 & σ2 & H1 & H2 & _ & _ & Hr & Hh & _).
  - intros p τ. eexists. reflexivity.
  - vm_compute. reflexivity.
  - reflexivity.
  - vm_compute. reflexivity.
  - by exists reply1, σ1, reply2, σ2.
Defined.

Lemma RoundTrip_version_any_case_witness :
  exists (newReq : loc) (σ' : Store) (r' : Request) (hl' : loc)
         (h' : gmap string (list string)),
    RoundTrip (NewCopilotTransport Fixtures.okTransport None) 1%positive
              Fixtures.testStore
    = roundTrip Fixtures.okTransport newReq σ' /\
    requests σ' !! newReq = Some r' /\
    Header r' = Some hl' /\
    headers σ' !! hl' = Some h' /\
    Header_Get h' "x-github-api-version" = "2023-05-01" /\
    Header_Get h' "X-GITHUB-API-VERSION" = "2023-05-01".
Proof.
  destruct (RoundTrip_version_any_case Fixtures.okTransport
              1%positive Fixtures.testStore Fixtures.testRequest 1%positive
              Fixtures.testHeaders)
    as (newReq & σ' & r' & hl' & h' & Hrun & Hr' & Hhl' & Hh' & Hget).
  - vm_compute. reflexivity.
  - reflexivity.
  - vm_compute. reflexivity.
  - exists newReq, σ', r', hl', h'.
    repeat match goal with |- _ /\ _ => split end; try assumption.
    + apply (Hrun None).
    + apply Hget. vm_compute. reflexivity.
    + apply Hget. vm_compute. reflexivity.
Defined.

End TransportExtras.

(** ** The endpoint classifier: context and length *)

Section ClassifierExtras.
Import Strings StringFacts.
Variable U : string -> string.

Lemma mapBytes_length f (s : string) :
  String.length (mapBytes f s) = String.length s.
Proof. induction s as [|c s IH]; simpl; [done | by rewrite IH]. Qed.

(** X8: a base URL that is classified as a Copilot endpoint stays one
    whatever ASCII text is put before or after it, such as a scheme, a
    path or a query. *)
Theorem isGitHubCopilotURL_survives_context (pre url post : string) :
  isASCII pre = true -> isASCII url = true -> isASCII post = true ->
  isGitHubCopilotURL U url = true ->
  isGitHubCopilotURL U (pre +:+ url +:+ post) = true.
Proof.
  intros Hpre Hurl Hpost Hyes.
  apply isGitHubCopilotURL_ascii in Hyes as (a & mid & b & -> & Hmid);
    [| done].
  apply isGitHubCopilotURL_ascii.
  - by rewrite isASCII_app, Hpre, isASCII_app, Hurl, Hpost.
  - exists (pre +:+ a), mid, (b +:+ post). split; [| done].
    by rewrite !append_assoc.
Qed.

(** X9: an ASCII url of fewer than 21 bytes, the length of the marker, is
    never classified as a Copilot endpoint. *)
Theorem isGitHubCopilotURL_short_is_false (url : string) :
  isASCII url = true ->
  (String.length url < 21)%nat ->
  isGitHubCopilotURL U url = false.
Proof.
  intros Hascii Hlen.
  destruct (isGitHubCopilotURL U url) eqn:Hyes; [| done].
  apply isGitHubCopilotURL_ascii in Hyes as (a & mid & b & -> & Hmid);
    [| done].
  apply (f_equal String.length) in Hmid.
  rewrite mapBytes_length in Hmid.
  rewrite !append_length, Hmid in Hlen. simpl in Hlen. lia.
Qed.

End ClassifierExtras.

Lemma isGitHubCopilotURL_survives_context_witness :
  isGitHubCopilotURL (fun s => s)
    "https://API.githubcopilot.com/v1/chat/completions?stream=true" = true.
Proof.
  apply (isGitHubCopilotURL_survives_context (fun s => s)
           "https://" "API.githubcopilot.com" "/v1/chat/completions?stream=true");
    vm_compute; reflexivity.
Defined.

Lemma isGitHubCopilotURL_short_is_false_witness :
  isGitHubCopilotURL (fun s => s) "api.githubcopilot.co" = false.
Proof.
  apply isGitHubCopilotURL_short_is_false; [vm_compute; reflexivity |].
  simpl. lia.
Defined.

(** ** Citations: the map of seen keys, counts and composition *)

Module CitationExtras.
Import Strings StringFacts Citations CitationFacts.

(** The map at the end of the loop started in any state. *)
Lemma foldl_visit_map (entries : list Citation) (m : gmap string bool)
    (acc : list string) (k : string) :
  (foldl visit (m, acc) entries).1 !! k
  = if decide (k ∈ citationKey <$> entries /\ seen m k = false)
    then Some true else m !! k.
Proof.
  revert m acc. induction entries as [|e entries IH]; intros m acc.
  - cbn [foldl fst].
    destruct (decide _) as [[H _] | _]; [| done].
    rewrite fmap_nil in H. by apply elem_of_nil in H.
  - cbn [foldl]. unfold visit at 2.
    destruct (seen m (citationKey e)) eqn:Hseen; cbn [negb]; rewrite IH.
    + rewrite fmap_cons. apply decide_ext.
      rewrite elem_of_cons. split; [tauto |].
      intros [[-> | ?] ?]; [congruence | done].
    + rewrite fmap_cons. destruct (decide (k = citationKey e)) as [->|Hk].
      * rewrite decide_False, lookup_insert_eq, decide_True; [done | |].
        -- split; [apply elem_of_cons; by left | done].
        -- intros [_ H]. apply seen_insert in H as [_ ?]. done.
      * rewrite lookup_insert_ne by done. apply decide_ext.
        rewrite elem_of_cons, seen_insert. split; [tauto |].
        intros [[? | ?] ?]; done.
Qed.

(** X10: at the end of the loop [citationMap] holds exactly the keys of the
    entries, each with the value true; no key is ever stored with false
    and no key of an entry is missing. *)
Theorem citationMap_holds_the_keys (entries : list Citation) (k : string) :
  (foldl visit (∅, []) entries).1 !! k
  = if decide (k ∈ citationKey <$> entries) then Some true else None.
Proof.
  rewrite foldl_visit_map, lookup_empty. apply decide_ext.
  unfold seen. rewrite lookup_empty. simpl. tauto.
Qed.

(** The loop keeps the map and the slice in step: whenever the map
    holds only true values and as many keys as there are lines, it
    does so after any run of the loop. *)
Lemma foldl_visit_size (entries : list Citation) (m : gmap string bool)
    (acc : list string) :
  (forall k v, m !! k = Some v -> v = true) ->
  size m = length acc ->
  size (foldl visit (m, acc) entries).1
  = length (foldl visit (m, acc) entries).2.
Proof.
  revert m acc. induction entries as [|e entries IH]; intros m acc Htrue Hsize.
  - done.
  - cbn [foldl]. unfold visit at 2 4.
    destruct (seen m (citationKey e)) eqn:Hseen; cbn [negb].
    + by apply IH.
    + assert (m !! citationKey e = None) as Hnone.
      { unfold seen in Hseen. destruct (m !! citationKey e) as [v|] eqn:Hv;
          [| done].
        simpl in Hseen. apply Htrue in Hv. congruence. }
      apply IH.
      * intros k v. rewrite lookup_insert. case_decide; [congruence | eauto].
      * rewrite map_size_insert_None by done.
        rewrite length_app. simpl. lia.
Qed.

(** X11: the number of lines is the number of keys in [citationMap]; it is
    at most the number of entries, and equal to it exactly when no two
    entries share a key. *)
Theorem collate_count (entries : list Citation) :
  length (collate entries) = size (foldl visit (∅, []) entries).1 /\
  (length (collate entries) <= length entries)%nat /\
  (length (collate entries) = length entries <->
   NoDup (citationKey <$> entries)).
Proof.
  split; [| split].
  - unfold collate. symmetry. by apply foldl_visit_size.
  - rewrite collate_firstSeen, length_fmap.
    apply sublist_length, firstSeen_sublist.
  - rewrite collate_firstSeen, length_fmap. split.
    + induction entries as [|e entries IH]; [constructor |].
      intros Hlen. rewrite fmap_cons. simpl in Hlen.
      pose proof (length_filter
                    (fun x => citationKey x ≠ citationKey e)
                    (firstSeen entries)) as Hf.
      pose proof (sublist_length _ _ (firstSeen_sublist entries)) as Hs.
      apply NoDup_cons. split; [| apply IH; lia].
      intros (x & Hx & Hinx)%list_elem_of_fmap.
      apply firstSeen_covers in Hinx as (y & Hy & Hin)%list_elem_of_fmap.
      pose proof (length_filter_lt
                    (fun x => citationKey x ≠ citationKey e)
                    (firstSeen entries) y Hin) as Hlt.
      assert (¬ citationKey y ≠ citationKey e) as Hny
          by (intros Hne; apply Hne; congruence).
      specialize (Hlt Hny). lia.
    + intros Hnd. by rewrite firstSeen_NoDup_id.
Qed.

(** X12: collating the kept entries again keeps all of them: the loop is
    idempotent. *)
Theorem collate_idempotent (entries : list Citation) :
  firstSeen (firstSeen entries) = firstSeen entries /\
  collate (firstSeen entries) = collate entries.
Proof.
  assert (firstSeen (firstSeen entries) = firstSeen entries) as H
      by apply firstSeen_NoDup_id, firstSeen_NoDup.
  split; [done |]. by rewrite !collate_firstSeen, H.
Qed.

(** X13: entries that arrive later only add lines at the end: the lines of
    a first batch are a prefix of the lines of the batch followed by
    more entries, and the added lines are those of the new keys. *)
Theorem collate_app (entries more : list Citation) :
  collate (entries ++ more)
  = collate entries
    ++ (citationText <$>
          filter (fun x => citationKey x ∉ citationKey <$> entries)
                 (firstSeen more)) /\
  collate entries `prefix_of` collate (entries ++ more).
Proof.
  assert (collate (entries ++ more)
          = collate entries
            ++ (citationText <$>
                  filter (fun x => citationKey x ∉ citationKey <$> entries)
                         (firstSeen more))) as H.
  { by rewrite !collate_firstSeen, firstSeen_app, fmap_app. }
  split; [done |]. rewrite H. by eexists.
Qed.

(** *** Keys of entries whose url has no ["|"] *)

Lemma Contains_cons_false (c : ascii) (s sub : string) :
  Contains (String c s) sub = false -> Contains s sub = false.
Proof.
  intros Hno. destruct (Contains s sub) eqn:Hyes; [| done].
  apply Contains_spec in Hyes as (pre & post & ->).
  assert (Contains (String c (pre +:+ sub +:+ post)) sub = true) as Hc.
  { apply Contains_spec. by exists (String c pre), post. }
  congruence.
Qed.

Lemma Contains_head_bar (s : string) : Contains (String "|" s) "|" = true.
Proof. apply Contains_spec. by exists "", s. Qed.

Lemma split_at_bar (u1 t1 u2 t2 : string) :
  Contains u1 "|" = false -> Contains u2 "|" = false ->
  u1 +:+ "|" +:+ t1 = u2 +:+ "|" +:+ t2 ->
  u1 = u2 /\ t1 = t2.
Proof.
  revert u2. induction u1 as [|c u1 IH]; intros [|d u2] H1 H2 Heq;
    rewrite ?append_cons, ?append_nil_l in Heq.
  - by injection Heq.
  - injection Heq as <- _. by rewrite Contains_head_bar in H2.
  - injection Heq as -> _. by rewrite Contains_head_bar in H1.
  - injection Heq as -> Heq.
    apply Contains_cons_false in H1, H2.
    destruct (IH u2 H1 H2 Heq) as [-> ->]. done.
Qed.

Lemma citationKey_inj_no_bar (e1 e2 : Citation) :
  Contains (URL e1) "|" = false -> Contains (URL e2) "|" = false ->
  citationKey e1 = citationKey e2 -> e1 = e2.
Proof.
  destruct e1 as [u1 t1], e2 as [u2 t2]. unfold citationKey. simpl.
  intros H1 H2 Heq. by destruct (split_at_bar u1 t1 u2 t2 H1 H2 Heq) as [-> ->].
Qed.

(** X14: when no url of the input contains the separator ["|"], the key
    tells entries apart, so only exact repetitions are dropped: every
    entry of the input has its line in the output, and an input without
    repetitions is rendered entry by entry. *)
Theorem collate_exact_without_bar (entries : list Citation) :
  (forall e, e ∈ entries -> Contains (URL e) "|" = false) ->
  (forall e, e ∈ entries -> e ∈ firstSeen entries) /\
  (forall e, e ∈ entries -> citationText e ∈ collate entries) /\
  NoDup (firstSeen entries) /\
  (NoDup entries -> collate entries = citationText <$> entries).
Proof.
  intros Hbar.
  assert (forall e, e ∈ entries -> e ∈ firstSeen entries) as Hkept.
  { intros e He.
    pose proof (firstSeen_covers entries e He) as Hk.
    apply list_elem_of_fmap in Hk as (y & Hy & Hin).
    assert (y ∈ entries) as Hyin
        by (eapply elem_of_sublist; [done | apply firstSeen_sublist]).
    rewrite (citationKey_inj_no_bar e y); auto. }
  split; [done |]. split; [| split].
  - intros e He. rewrite collate_firstSeen.
    by apply list_elem_of_fmap_2, Hkept.
  - eapply NoDup_fmap_1, firstSeen_NoDup.
  - intros Hnd. rewrite collate_firstSeen, firstSeen_NoDup_id; [done |].
    apply NoDup_fmap_2_strong; [| done].
    intros x y Hx Hy. apply citationKey_inj_no_bar; auto.
Qed.

Lemma collate_exact_without_bar_witness :
  forallb (fun e => negb (Contains (URL e) "|")) Fixtures.mockCitations = true /\
  NoDup (firstSeen Fixtures.mockCitations).
Proof.
  split; [vm_compute; reflexivity |].
  apply (collate_exact_without_bar Fixtures.mockCitations).
  intros e He. unfold Fixtures.mockCitations in He.
  repeat (apply elem_of_cons in He as [-> | He]; [vm_compute; reflexivity |]).
  by apply elem_of_nil in He.
Defined.

(** X15: different keys can still render alike: the title ["a](b"] with the
    url ["c"] and the title ["a"] with the url ["b](c"] are both kept
    and both give the line ["- [a](b](c)"], so the lines of [collate]
    are not always pairwise different. *)
Theorem collate_lines_may_repeat :
  (exists e1 e2,
     citationKey e1 ≠ citationKey e2 /\
     citationText e1 = citationText e2 /\
     collate [e1; e2] = [citationText e1; citationText e1]) /\
  ~ (forall entries, NoDup (collate entries)).
Proof.
  assert (collate [mkCitation "c" "a](b"; mkCitation "b](c" "a"]
          = ["- [a](b](c)"; "- [a](b](c)"]) as Hc
      by (vm_compute; reflexivity).
  split.
  - exists (mkCitation "c" "a](b"), (mkCitation "b](c" "a").
    split; [discriminate |]. split; [reflexivity | exact Hc].
  - intros Hnd.
    specialize (Hnd [mkCitation "c" "a](b"; mkCitation "b](c" "a"]).
    rewrite Hc in Hnd. apply NoDup_cons in Hnd as [Hni _].
    apply Hni, elem_of_cons. by left.
Qed.

(** *** The assembled result *)

Lemma Join_contains (elems : list string) (sep l : string) :
  l ∈ elems -> exists pre post, Join elems sep = pre +:+ l +:+ post.
Proof.
  induction elems as [|e rest IH]; [by intros ?%elem_of_nil |].
  intros Hin. destruct rest as [|r rest].
  - apply elem_of_cons in Hin as [-> | ?%elem_of_nil]; [| done].
    exists "", "". simpl. by rewrite append_nil_l, append_nil_r.
  - change (Join (e :: r :: rest) sep)
      with (e +:+ sep +:+ Join (r :: rest) sep).
    apply elem_of_cons in Hin as [-> | Hin].
    + by exists "", (sep +:+ Join (r :: rest) sep).
    + destruct (IH Hin) as (pre & post & ->).
      exists (e +:+ sep +:+ pre), post. by rewrite !append_assoc.
Qed.

(** X16: the result always begins with the text as it was, and when there
    are entries it contains the Sources heading and every line of
    [collate], as the assertions of [TestCitationFormatting] expect. *)
Theorem formatResult_contains (textParts : list string)
    (entries : list Citation) :
  HasPrefix (formatResult textParts entries) (Join textParts "") = true /\
  (entries ≠ [] ->
   Contains (formatResult textParts entries) "## Sources" = true) /\
  (forall line, line ∈ collate entries ->
     Contains (formatResult textParts entries) line = true).
Proof.
  destruct entries as [|e entries].
  - split; [| split].
    + apply HasPrefix_spec. exists "". by rewrite append_nil_r.
    + done.
    + by intros line ?%elem_of_nil.
  - destruct (collate_nonempty e entries) as (l0 & ls & Hc).
    assert (formatResult textParts (e :: entries)
            = Join textParts "" +:+ sourcesHeader
              +:+ Join (collate (e :: entries)) newline) as Hfmt.
    { unfold formatResult. by rewrite Hc. }
    rewrite Hfmt. split; [| split].
    + apply HasPrefix_spec. by eexists.
    + intros _. apply Contains_spec.
      exists (Join textParts "" +:+ newline +:+ newline),
        (newline +:+ newline +:+ Join (collate (e :: entries)) newline).
      unfold sourcesHeader. by rewrite !append_assoc.
    + intros line Hin. apply Contains_spec.
      destruct (Join_contains _ newline line Hin) as (pre & post & ->).
      exists (Join textParts "" +:+ sourcesHeader +:+ pre), post.
      by rewrite !append_assoc.
Qed.

Lemma formatResult_contains_witness :
  Contains (formatResult Fixtures.mockText Fixtures.mockCitations)
           "## Sources" = true.
Proof.
  destruct (formatResult_contains Fixtures.mockText Fixtures.mockCitations)
    as (_ & Hsources & _).
  apply Hsources. discriminate.
Defined.

End CitationExtras.
